(** * CheckForm: the vehicle-inspection form and its submission workflow

    A shallow embedding of [frontend/src/CheckForm.tsx].  The React
    component keeps eight pieces of state and two callbacks; its event
    handlers are embedded as programs of a small state-and-trace monad, the
    asynchronous [handleSubmit] as the part that runs up to the [await] and
    the part that resumes once the request has settled. *)

From Stdlib Require Import ZArith NArith Ascii String.
From stdpp Require Import base list option.

(** ** The JavaScript values the component manipulates *)

Module JS.

(** A JavaScript string is a sequence of UTF-16 code units. *)
Abbreviation jsstring := (list N).

(** A string literal of the source (all of them are ASCII). *)
Definition lit (s : string) : jsstring := N_of_ascii <$> list_ascii_of_string s.

(** WhiteSpace and LineTerminator of ECMAScript: what [trim] strips. *)
Definition isWhiteSpace (c : N) : bool :=
  (c =? 0x0009)%N || (c =? 0x000A)%N || (c =? 0x000B)%N || (c =? 0x000C)%N
  || (c =? 0x000D)%N || (c =? 0x0020)%N || (c =? 0x00A0)%N || (c =? 0x1680)%N
  || ((0x2000 <=? c)%N && (c <=? 0x200A)%N)
  || (c =? 0x2028)%N || (c =? 0x2029)%N || (c =? 0x202F)%N || (c =? 0x205F)%N
  || (c =? 0x3000)%N || (c =? 0xFEFF)%N.

(** [String.prototype.trimStart]. *)
Fixpoint trimStart (s : jsstring) : jsstring :=
  match s with
  | c :: r => if isWhiteSpace c then trimStart r else s
  | [] => []
  end.

(** [String.prototype.trimEnd]. *)
Definition trimEnd (s : jsstring) : jsstring := reverse (trimStart (reverse s)).

(** [String.prototype.trim]. *)
Definition trim (s : jsstring) : jsstring := trimEnd (trimStart s).

(** Vocabulary for what [trim] guarantees. *)
Definition startsWithWhiteSpace (s : jsstring) : bool :=
  match s with c :: _ => isWhiteSpace c | [] => false end.

Definition endsWithWhiteSpace (s : jsstring) : bool :=
  startsWithWhiteSpace (reverse s).

Definition allWhiteSpace (s : jsstring) : Prop :=
  Forall (fun c => isWhiteSpace c = true) s.

(** Truthiness of a string: the empty string is the only falsy one. *)
Definition truthy (s : jsstring) : bool :=
  match s with [] => false | _ :: _ => true end.

(** The result of [parseFloat].  A finite result is kept as the decimal the
    parsed literal denotes, [(-1)^neg * mantissa * 10^exp10].  The number the
    program gets is the binary64 nearest to that decimal, an infinity or a
    zero when the decimal is out of range; this rounding is not modelled, so
    that a [Decimal] stands for the text that was read and is the number
    itself only where the rounding is exact, as it is for every whole number
    up to [2^53]. *)
Inductive number : Type :=
  | NaN
  | Infinity (neg : bool)
  | Decimal (neg : bool) (mantissa : N) (exp10 : Z).

Definition isDigit (c : N) : bool := (48 <=? c)%N && (c <=? 57)%N.

(** The longest run of decimal digits at the head of [s], and the rest. *)
Fixpoint takeDigits (s : jsstring) : list N * jsstring :=
  match s with
  | c :: r =>
      if isDigit c then let '(ds, r') := takeDigits r in ((c - 48)%N :: ds, r')
      else ([], s)
  | [] => ([], [])
  end.

Definition digitsValue (ds : list N) : N :=
  foldl (fun acc d => (10 * acc + d)%N) 0%N ds.

(** [s] without the prefix [p], when it starts with it. *)
Fixpoint stripPrefix (p s : jsstring) : option jsstring :=
  match p, s with
  | [], _ => Some s
  | a :: p', b :: s' => if (a =? b)%N then stripPrefix p' s' else None
  | _ :: _, [] => None
  end.

(** An optional sign at the head of [s]: whether it is a minus, and the rest. *)
Definition takeSign (s : jsstring) : bool * jsstring :=
  match s with
  | c :: r =>
      if (c =? 43)%N then (false, r) else if (c =? 45)%N then (true, r)
      else (false, s)
  | [] => (false, [])
  end.

(** The ExponentPart at the head of [s], 0 when there is none. *)
Definition takeExponent (s : jsstring) : Z :=
  match s with
  | c :: r =>
      if (c =? 101)%N || (c =? 69)%N then
        let '(neg, r1) := takeSign r in
        match takeDigits r1 with
        | ([], _) => 0%Z
        | (ds, _) =>
            if neg then (- Z.of_N (digitsValue ds))%Z else Z.of_N (digitsValue ds)
        end
      else 0%Z
  | [] => 0%Z
  end.

(** [parseFloat]: leading white space is skipped, then the longest prefix
    that is a StrDecimalLiteral is read; [NaN] when there is none. *)
Definition parseFloat (s : jsstring) : number :=
  let '(neg, s1) := takeSign (trimStart s) in
  match stripPrefix (lit "Infinity") s1 with
  | Some _ => Infinity neg
  | None =>
      let '(ip, s2) := takeDigits s1 in
      let '(fp, s3) :=
        match s2 with
        | c :: r => if (c =? 46)%N then takeDigits r else ([], s2)
        | [] => ([], s2)
        end in
      match ip ++ fp with
      | [] => NaN
      | ds =>
          Decimal neg (digitsValue ds)
                  (takeExponent s3 - Z.of_nat (length fp))%Z
      end
  end.

#[local] Set Warnings "-register-all".

(** *** Values of unknown type

    What a [catch] clause receives is of type [unknown].  The values below
    are those that JSON and plain data objects give: an object holds data
    properties only, no methods and no getters.  A number is given by the
    text that [Number::toString] writes for it, which is all that the
    component can see of one.  A symbol, a bigint or a function, had one
    been thrown, would be read as a string or an object is: none has a
    property of the names the component reads unless it was given one. *)
Inductive value : Type :=
  | VUndefined
  | VNull
  | VBool (b : bool)
  | VNumber (text : jsstring)
  | VString (s : jsstring)
  | VArray (elements : list value)
  | VObject (properties : list (jsstring * value)).

(** [undefined] and [null], of which no property can be read. *)
Definition nullish (v : value) : bool :=
  match v with VUndefined | VNull => true | _ => false end.

(** ToBoolean: [undefined], [null], [false], [0], [NaN] and the empty string
    are falsy; every array and every object is truthy. *)
Definition toBoolean (v : value) : bool :=
  match v with
  | VUndefined | VNull => false
  | VBool b => b
  | VNumber t => negb (bool_decide (t = lit "0") || bool_decide (t = lit "NaN"))
  | VString s => truthy s
  | VArray _ | VObject _ => true
  end.

(** ToString, as a template literal applies it.  An array is its elements
    joined by commas, [undefined] and [null] among them giving nothing. *)
Fixpoint toString (v : value) : jsstring :=
  match v with
  | VUndefined => lit "undefined"
  | VNull => lit "null"
  | VBool true => lit "true"
  | VBool false => lit "false"
  | VNumber t => t
  | VString s => s
  | VArray vs =>
      (fix join (vs : list value) : jsstring :=
         match vs with
         | [] => []
         | v :: vs' =>
             let s := match v with
                      | VUndefined | VNull => []
                      | _ => toString v
                      end in
             match vs' with
             | [] => s
             | _ :: _ => s ++ lit "," ++ join vs'
             end
         end) vs
  | VObject _ => lit "[object Object]"
  end.

(** The first property of that name in a list of properties. *)
Fixpoint lookupProperty (p : jsstring) (props : list (jsstring * value)) : value :=
  match props with
  | [] => VUndefined
  | (q, v) :: props' => if bool_decide (p = q) then v else lookupProperty p props'
  end.

(** Reading the property [p] of [v], for a name that is neither an index nor
    a property of a prototype, as are the four names the component reads:
    [None] is the TypeError of reading a property of [undefined] or [null];
    a primitive or an array has no such property; an object has it when it
    holds it. *)
Definition getProp (p : jsstring) (v : value) : option value :=
  match v with
  | VUndefined | VNull => None
  | VObject props => Some (lookupProperty p props)
  | _ => Some VUndefined
  end.

End JS.

Import JS.

(** ** The data model of [./types] and [./Toast] *)

Module Types.

(** Modelled from the spec: the declaration of [CheckItemKey] in [./types]
    is not among the sources; the spec gives it as this closed enumeration,
    and [CHECK_ITEMS] lists the same five keys. *)
Inductive CheckItemKey : Type := TYRES | BRAKES | LIGHTS | OIL | COOLANT.

(** The status of an item, ["OK" | "FAIL"] in [handleItemStatusChange]. *)
Inductive Status : Type := OK | FAIL.

Record CheckItem : Type := { key : CheckItemKey; status : Status }.

Record Vehicle : Type :=
  { id : jsstring; registration : jsstring; make : jsstring;
    model : jsstring; year : Z }.

(** The payload of [api.createCheck]; [note] is an optional property. *)
Record Check : Type :=
  { vehicleId : jsstring; odometerKm : number; items : list CheckItem;
    note : option jsstring }.

Record ValidationErrorDetail : Type := { field : jsstring; reason : jsstring }.

(** Modelled from the spec: [ErrorResponse] is declared in [./types]; its
    shape is [{ error: { details?: [{ field, reason }] } }].  The component
    reads it with [errorResponse.error?.details], so both [error] and
    [details] may be missing: [None] stands for a property that is absent.
    These records are the errors of the declared shape; what the [catch]
    clause receives is any value, see [ofErrorResponse]. *)
Record ErrorBody : Type := { details : option (list ValidationErrorDetail) }.
Record ErrorResponse : Type := { error : option ErrorBody }.

(** The two kinds of toast the component asks for. *)
Inductive ToastType : Type := success | error_toast.

End Types.

Import Types.

#[global] Instance CheckItemKey_eq_dec : EqDecision CheckItemKey.
Proof. solve_decision. Defined.

#[global] Instance Status_eq_dec : EqDecision Status.
Proof. solve_decision. Defined.

(** ** The component *)

Definition CHECK_ITEMS : list CheckItemKey := [TYRES; BRAKES; LIGHTS; OIL; COOLANT].

(** The state variables of [CheckForm], one field per [useState]. *)
Record FormState : Type :=
  { vehicles : list Vehicle;
    selectedVehicle : jsstring;
    odometerKm : jsstring;
    note : jsstring;
    items : list CheckItem;
    loading : bool;
    error : option jsstring;
    validationErrors : list jsstring }.

(** What the component does to the outside: the requests to the backend and
    the two callbacks of its props, which are taken to return normally. *)
Inductive Effect : Type :=
  | GetVehicles
  | CreateCheck (c : Check)
  | ShowToast (message : jsstring) (type : ToastType)
  | OnSuccess.

(** The state of the form together with the effects performed so far, the
    oldest first. *)
Record World : Type := { form : FormState; trace : list Effect }.

(** *** A state-and-trace monad for the handlers *)

Definition M (A : Type) : Type := World -> A * World.

Definition ret {A} (a : A) : M A := fun w => (a, w).

Definition bind {A B} (m : M A) (k : A -> M B) : M B :=
  fun w => let '(a, w') := m w in k a w'.

Definition exec {A} (m : M A) (w : World) : World := snd (m w).

Declare Scope handler_scope.
Delimit Scope handler_scope with handler.
Notation "m ;; k" := (bind m (fun _ => k))
  (at level 100, k at level 200, right associativity) : handler_scope.
Notation "x <- m ;; k" := (bind m (fun x => k))
  (at level 100, m at next level, k at level 200, right associativity)
  : handler_scope.
Open Scope handler_scope.

Definition modify (f : FormState -> FormState) : M unit :=
  fun w => (tt, {| form := f (form w); trace := trace w |}).

Definition perform (e : Effect) : M unit :=
  fun w => (tt, {| form := form w; trace := trace w ++ [e] |}).

Definition setVehicles (v : list Vehicle) : M unit :=
  modify (fun s =>
    {| vehicles := v; selectedVehicle := selectedVehicle s;
       odometerKm := odometerKm s; note := note s; items := items s;
       loading := loading s; error := error s;
       validationErrors := validationErrors s |}).

Definition setSelectedVehicle (v : jsstring) : M unit :=
  modify (fun s =>
    {| vehicles := vehicles s; selectedVehicle := v;
       odometerKm := odometerKm s; note := note s; items := items s;
       loading := loading s; error := error s;
       validationErrors := validationErrors s |}).

Definition setOdometerKm (v : jsstring) : M unit :=
  modify (fun s =>
    {| vehicles := vehicles s; selectedVehicle := selectedVehicle s;
       odometerKm := v; note := note s; items := items s;
       loading := loading s; error := error s;
       validationErrors := validationErrors s |}).

Definition setNote (v : jsstring) : M unit :=
  modify (fun s =>
    {| vehicles := vehicles s; selectedVehicle := selectedVehicle s;
       odometerKm := odometerKm s; note := v; items := items s;
       loading := loading s; error := error s;
       validationErrors := validationErrors s |}).

(** [setItems] with an updater function, [setItems((prev) => ...)]; a plain
    [setItems(v)] is [setItems (fun _ => v)]. *)
Definition setItems (f : list CheckItem -> list CheckItem) : M unit :=
  modify (fun s =>
    {| vehicles := vehicles s; selectedVehicle := selectedVehicle s;
       odometerKm := odometerKm s; note := note s; items := f (items s);
       loading := loading s; error := error s;
       validationErrors := validationErrors s |}).

Definition setLoading (v : bool) : M unit :=
  modify (fun s =>
    {| vehicles := vehicles s; selectedVehicle := selectedVehicle s;
       odometerKm := odometerKm s; note := note s; items := items s;
       loading := v; error := error s;
       validationErrors := validationErrors s |}).

Definition setError (v : option jsstring) : M unit :=
  modify (fun s =>
    {| vehicles := vehicles s; selectedVehicle := selectedVehicle s;
       odometerKm := odometerKm s; note := note s; items := items s;
       loading := loading s; error := v;
       validationErrors := validationErrors s |}).

Definition setValidationErrors (v : list jsstring) : M unit :=
  modify (fun s =>
    {| vehicles := vehicles s; selectedVehicle := selectedVehicle s;
       odometerKm := odometerKm s; note := note s; items := items s;
       loading := loading s; error := error s;
       validationErrors := v |}).

Definition showToast (message : jsstring) (type : ToastType) : M unit :=
  perform (ShowToast message type).

Definition onSuccess : M unit := perform OnSuccess.

(** *** Initial state *)

(** [CHECK_ITEMS.map((key) => ({ key, status: "OK" }))]: the initial value of
    [items], and the value a successful submission resets it to. *)
Definition initialItems : list CheckItem :=
  (fun key => {| key := key; status := OK |}) <$> CHECK_ITEMS.

Definition initialState : FormState :=
  {| vehicles := []; selectedVehicle := lit ""; odometerKm := lit "";
     note := lit ""; items := initialItems; loading := false;
     error := None; validationErrors := [] |}.

Definition initialWorld : World := {| form := initialState; trace := [] |}.

(** The effect run on mount: [api.getVehicles()]. *)
Definition mount : M unit := perform GetVehicles.

(** *** The checklist *)

Definition handleItemStatusChange (key : CheckItemKey) (status : Status) : M unit :=
  setItems (fun prev =>
    (fun item =>
       if decide (Types.key item = key)
       then {| key := Types.key item; status := status |}
       else item) <$> prev).

(** *** Submission *)

(** How the promise of [api.createCheck] settles: it is fulfilled, or
    rejected with a value of which nothing is known, [err: unknown]. *)
Inductive Settled : Type :=
  | Fulfilled
  | Rejected (err : value).

(** How a block of the handler ends: normally, or by throwing. *)
Inductive Completion : Type := Normal | Throw.

Definition createCheck (c : Check) : M unit := perform (CreateCheck c).

(** The argument of [api.createCheck], built from the state variables the
    handler closes over. *)
Definition payload (render : FormState) : Check :=
  {| vehicleId := selectedVehicle render;
     Types.odometerKm := parseFloat (odometerKm render);
     Types.items := items render;
     Types.note :=
       if truthy (trim (note render)) then Some (trim (note render)) else None |}.

(** [handleSubmit] up to its [await]; [render] is the state of the render the
    handler belongs to.  [e.preventDefault()] does nothing to the state. *)
Definition handleSubmit_request (render : FormState) : M unit :=
  setError None ;;
  setValidationErrors [] ;;
  setLoading true ;;
  createCheck (payload render).

(** [`${d.field}: ${d.reason}`] *)
Definition formatDetail (d : ValidationErrorDetail) : jsstring :=
  field d ++ lit ": " ++ reason d.

(** An error of the declared shape, as the value it is. *)
Definition ofDetail (d : ValidationErrorDetail) : value :=
  VObject [(lit "field", VString (field d)); (lit "reason", VString (reason d))].

Definition ofErrorResponse (e : ErrorResponse) : value :=
  VObject
    match Types.error e with
    | None => []
    | Some body =>
        [(lit "error",
          VObject
            match details body with
            | None => []
            | Some ds => [(lit "details", VArray (ofDetail <$> ds))]
            end)]
    end.

(** [errorResponse.error?.details]: [None] when reading [.error] throws,
    which it does of [undefined] and [null]; the optional chain stops at an
    [error] that is [undefined] or [null]. *)
Definition errorDetails (err : value) : option value :=
  match getProp (lit "error") err with
  | None => None
  | Some e => if nullish e then Some VUndefined else getProp (lit "details") e
  end.

(** [`${d.field}: ${d.reason}`] of an element of any type: [None] when
    reading its properties throws. *)
Definition detailText (d : value) : option jsstring :=
  match getProp (lit "field") d, getProp (lit "reason") d with
  | Some f, Some r => Some (toString f ++ lit ": " ++ toString r)
  | _, _ => None
  end.

Definition genericMessage : jsstring := lit "Failed to submit check. Please try again.".

(** The [catch] block.  An array is truthy whatever its length, so the first
    branch is taken as soon as [details] is one.  The block itself throws,
    before it has done anything, when [err] is [undefined] or [null], when
    [details] is truthy and has no [map], which only arrays have, and when
    an element of [details] is [undefined] or [null]. *)
Definition handleSubmit_catch (err : value) : M Completion :=
  match errorDetails err with
  | None => ret Throw
  | Some ds =>
      if toBoolean ds then
        match ds with
        | VArray ds =>
            match mapM detailText ds with
            | Some details =>
                setValidationErrors details ;;
                showToast (default (lit "Validation failed.") (head details))
                          error_toast ;;
                ret Normal
            | None => ret Throw
            end
        | _ => ret Throw
        end
      else
        let message := genericMessage in
        setError (Some message) ;;
        showToast message error_toast ;;
        ret Normal
  end.

(** [handleSubmit] from the point where the awaited promise has settled:
    the rest of the [try] block or the [catch] block, then [finally], which
    runs however the block before it ended.  The result tells whether the
    handler ended normally or threw, that is, whether the promise it returns
    is fulfilled or rejected. *)
Definition handleSubmit_settle (r : Settled) : M Completion :=
  c <- match r with
       | Fulfilled =>
           setSelectedVehicle (lit "") ;;
           setOdometerKm (lit "") ;;
           setNote (lit "") ;;
           setItems (fun _ => initialItems) ;;
           showToast (lit "Inspection submitted successfully.") success ;;
           onSuccess ;;
           ret Normal
       | Rejected err => handleSubmit_catch err
       end ;;
  setLoading false ;;
  ret c.

(** *** The form as a transition system *)

(** What can happen to the form besides a submission: the [onChange]
    handlers of its controls and the arrival of the vehicle list. *)
Inductive Edit : Type :=
  | ChangeVehicle (value : jsstring)
  | ChangeOdometer (value : jsstring)
  | ChangeNote (value : jsstring)
  | ChangeItemStatus (key : CheckItemKey) (status : Status)
  | VehiclesLoaded (vs : list Vehicle).

Definition edit (e : Edit) : M unit :=
  match e with
  | ChangeVehicle v => setSelectedVehicle v
  | ChangeOdometer v => setOdometerKm v
  | ChangeNote v => setNote v
  | ChangeItemStatus k st => handleItemStatusChange k st
  | VehiclesLoaded vs => setVehicles vs
  end.

Fixpoint edits (es : list Edit) : M unit :=
  match es with
  | [] => ret tt
  | e :: es' => edit e ;; edits es'
  end.

(** The form is submitted: the handler of the current render runs up to
    its [await]. *)
Definition submit : M unit := fun w => handleSubmit_request (form w) w.

(** One whole submission: the request goes out, the user may go on editing
    while it is in flight, and the handler resumes when it has settled. *)
Definition handleSubmit (es : list Edit) (r : Settled) : M Completion :=
  submit ;; edits es ;; handleSubmit_settle r.

(** A sequence of [handleItemStatusChange] calls. *)
Fixpoint setStatuses (calls : list (CheckItemKey * Status)) : M unit :=
  match calls with
  | [] => ret tt
  | (k, st) :: calls' => handleItemStatusChange k st ;; setStatuses calls'
  end.

(** *** Vocabulary of the specification *)


(** The errors the [catch] block copes with: any value but [undefined] and
    [null] whose [error.details] is falsy, or is an array none of whose
    elements is [undefined] or [null]. *)
Definition readable (err : value) : bool :=
  negb (nullish err)
  && match errorDetails err with
     | Some (VArray ds) => forallb (fun d => negb (nullish d)) ds
     | Some d => negb (toBoolean d)
     | None => false
     end.

(** What a rejection comes to: the texts of its details when it has a list
    of them, no details, or an error that cannot be read. *)
Inductive RejectionKind : Type :=
  | WithDetails (texts : list jsstring)
  | WithoutDetails
  | Unreadable.

Definition rejectionKind (err : value) : RejectionKind :=
  match errorDetails err with
  | Some (VArray ds) =>
      match mapM detailText ds with
      | Some texts => WithDetails texts
      | None => Unreadable
      end
  | Some d => if toBoolean d then Unreadable else WithoutDetails
  | None => Unreadable
  end.




(** *** The rendered form *)

(** One row of the checklist: the key it shows and whether its OK and FAIL
    radios are checked. *)
Record RadioRow : Type :=
  { rowKey : CheckItemKey; okChecked : bool; failChecked : bool }.

(** What the JSX of [CheckForm] makes of the state: the two banners when
    they are rendered, the value and the option values of the vehicle select
    (the placeholder option first), the values of the inputs, the rows of
    the checklist, the number shown before ["/300"], and the submit button.
    The texts of the option labels are left out. *)
Record View : Type :=
  { errorBanner : option jsstring;
    validationBanner : option (list jsstring);
    vehicleValue : jsstring;
    vehicleOptions : list jsstring;
    odometerValue : jsstring;
    checklist : list RadioRow;
    noteValue : jsstring;
    noteLength : nat;
    submitDisabled : bool;
    submitLabel : jsstring }.

Definition render (s : FormState) : View :=
  {| errorBanner :=
       match error s with
       | Some m => if truthy m then Some m else None
       | None => None
       end;
     validationBanner :=
       if (0 <? length (validationErrors s))%nat then Some (validationErrors s)
       else None;
     vehicleValue := selectedVehicle s;
     vehicleOptions := lit "" :: (Types.id <$> vehicles s);
     odometerValue := odometerKm s;
     checklist :=
       (fun item =>
          {| rowKey := key item;
             okChecked := bool_decide (status item = OK);
             failChecked := bool_decide (status item = FAIL) |}) <$> items s;
     noteValue := note s;
     noteLength := length (note s);
     submitDisabled := loading s;
     submitLabel := if loading s then lit "Submitting..." else lit "Submit Check" |}.

(** The [onChange] of a radio of the [i]-th row,
    [() => handleItemStatusChange(item.key, status)], with the item that row
    was rendered from. *)
Definition clickRadio (i : nat) (st : Status) : M unit :=
  fun w =>
    match items (form w) !! i with
    | Some item => handleItemStatusChange (key item) st w
    | None => ret tt w
    end.

(** *** The form in the browser *)

(** What reaches the component: the user acts on a control, or one of the
    two requests settles ([None] for a vehicle request that is rejected). *)
Inductive UIEvent : Type :=
  | VehicleChosen (value : jsstring)
  | OdometerTyped (value : jsstring)
  | NoteTyped (value : jsstring)
  | RadioClicked (i : nat) (st : Status)
  | SubmitClicked
  | CheckSettled (r : Settled)
  | VehiclesSettled (r : option (list Vehicle)).

(** The component with its surroundings: the submissions that have been
    sent and have not settled yet, whether the vehicle request is still
    pending, how many times [console.error] was called, and how many runs
    of [handleSubmit] ended by throwing (nothing awaits the promise the
    handler returns, so that such a rejection goes unhandled). *)
Record Browser : Type :=
  { world : World;
    pendingChecks : nat;
    pendingVehicles : bool;
    consoleErrors : nat;
    unhandledRejections : nat }.

Definition onWorld (m : M unit) (b : Browser) : Browser :=
  {| world := exec m (world b); pendingChecks := pendingChecks b;
     pendingVehicles := pendingVehicles b; consoleErrors := consoleErrors b;
     unhandledRejections := unhandledRejections b |}.

(** One event.  A disabled submit button submits nothing; a promise settles
    once, so a settlement is delivered only for a request that is pending.
    The vehicle request is [api.getVehicles().then(setVehicles)
    .catch(console.error)]. *)
Definition dispatch (ev : UIEvent) (b : Browser) : Browser :=
  match ev with
  | VehicleChosen v => onWorld (setSelectedVehicle v) b
  | OdometerTyped v => onWorld (setOdometerKm v) b
  | NoteTyped v => onWorld (setNote v) b
  | RadioClicked i st => onWorld (clickRadio i st) b
  | SubmitClicked =>
      if submitDisabled (render (form (world b))) then b
      else
        {| world := exec submit (world b);
           pendingChecks := S (pendingChecks b);
           pendingVehicles := pendingVehicles b;
           consoleErrors := consoleErrors b;
           unhandledRejections := unhandledRejections b |}
  | CheckSettled r =>
      match pendingChecks b with
      | O => b
      | S n =>
          {| world := exec (handleSubmit_settle r) (world b);
             pendingChecks := n;
             pendingVehicles := pendingVehicles b;
             consoleErrors := consoleErrors b;
             unhandledRejections :=
               match fst (handleSubmit_settle r (world b)) with
               | Normal => unhandledRejections b
               | Throw => S (unhandledRejections b)
               end |}
      end
  | VehiclesSettled r =>
      if pendingVehicles b then
        match r with
        | Some vs =>
            {| world := exec (setVehicles vs) (world b);
               pendingChecks := pendingChecks b;
               pendingVehicles := false;
               consoleErrors := consoleErrors b;
               unhandledRejections := unhandledRejections b |}
        | None =>
            {| world := world b;
               pendingChecks := pendingChecks b;
               pendingVehicles := false;
               consoleErrors := S (consoleErrors b);
               unhandledRejections := unhandledRejections b |}
        end
      else b
  end.

(** The form once mounted: the initial state, the vehicle request sent. *)
Definition mounted : Browser :=
  {| world := exec mount initialWorld; pendingChecks := 0;
     pendingVehicles := true; consoleErrors := 0; unhandledRejections := 0 |}.

Definition browse (evs : list UIEvent) (b : Browser) : Browser :=
  foldl (fun b ev => dispatch ev b) b evs.

(** How many effects of a kind a trace holds. *)
Fixpoint countEffects (p : Effect -> bool) (l : list Effect) : nat :=
  match l with
  | [] => 0
  | e :: l' => (if p e then 1 else 0) + countEffects p l'
  end.

Definition isGetVehicles (e : Effect) : bool :=
  match e with GetVehicles => true | _ => false end.

Definition isCreateCheck (e : Effect) : bool :=
  match e with CreateCheck _ => true | _ => false end.

Definition isShowToast (e : Effect) : bool :=
  match e with ShowToast _ _ => true | _ => false end.

Definition isOnSuccess (e : Effect) : bool :=
  match e with OnSuccess => true | _ => false end.

(** The first settlement of the vehicle request among the events, if any. *)
Fixpoint firstVehiclesSettled (evs : list UIEvent) : option (option (list Vehicle)) :=
  match evs with
  | [] => None
  | VehiclesSettled r :: _ => Some r
  | _ :: evs' => firstVehiclesSettled evs'
  end.


(** What holds of the form in the browser at all times. *)
Record Consistent (b : Browser) : Prop :=
  { pending_is_loading :
      pendingChecks b = if loading (form (world b)) then 1 else 0;
    loading_has_no_errors :
      loading (form (world b)) = true ->
      error (form (world b)) = None /\ validationErrors (form (world b)) = [];
    one_display :
      error (form (world b)) = None \/ validationErrors (form (world b)) = [];
    error_is_generic :
      error (form (world b)) = None
      \/ error (form (world b)) = Some genericMessage;
    five_keys : key <$> items (form (world b)) = CHECK_ITEMS;
    one_toast_per_settled :
      countEffects isCreateCheck (trace (world b))
      = countEffects isShowToast (trace (world b)) + unhandledRejections b
        + pendingChecks b;
    vehicles_requested_once :
      countEffects isGetVehicles (trace (world b)) = 1 }.

(** * Properties *)

(** ** The string primitives on a few inputs *)

Example trim_tab_newline : trim ([0x0009; 0x000A]%N ++ lit "a b" ++ [0x000D; 0x0020]%N) = lit "a b".
Proof. reflexivity. Qed.

Example trim_ideographic_space : trim ([0x3000; 0xFEFF]%N ++ lit "ok" ++ [0x000A; 0x00A0]%N) = lit "ok".
Proof. reflexivity. Qed.

Example trim_keeps_inner_space : trim (lit " a  b ") = lit "a  b".
Proof. reflexivity. Qed.

Example parseFloat_integer : parseFloat (lit "12345") = Decimal false 12345 0.
Proof. reflexivity. Qed.

Example parseFloat_prefix : parseFloat (lit " -12.50e1km") = Decimal true 1250 (-1).
Proof. reflexivity. Qed.

Example parseFloat_trailing_dot : parseFloat (lit "5.e2") = Decimal false 5 2.
Proof. reflexivity. Qed.

Example parseFloat_lone_dot : parseFloat (lit ".") = NaN.
Proof. reflexivity. Qed.

Example parseFloat_words : parseFloat (lit "km") = NaN.
Proof. reflexivity. Qed.

Example parseFloat_infinity : parseFloat (lit "-Infinity") = Infinity true.
Proof. reflexivity. Qed.

(** ** Trimming *)

Lemma trimStart_split (s : jsstring) :
  exists l, s = l ++ trimStart s /\ allWhiteSpace l.
Proof.
  induction s as [|c s [l [Hs Hl]]]; simpl.
  - exists []. split; [reflexivity | constructor].
  - destruct (isWhiteSpace c) eqn:Hc.
    + exists (c :: l). split; [simpl; congruence | by constructor].
    + exists []. split; [reflexivity | constructor].
Qed.

Lemma trimStart_head (s : jsstring) : startsWithWhiteSpace (trimStart s) = false.
Proof.
  induction s as [|c s IH]; simpl; [reflexivity|].
  destruct (isWhiteSpace c) eqn:Hc; [exact IH | simpl; exact Hc].
Qed.

Lemma trimEnd_split (s : jsstring) :
  exists r, s = trimEnd s ++ r /\ allWhiteSpace r.
Proof.
  destruct (trimStart_split (reverse s)) as [l [Hs Hl]].
  exists (reverse l). split.
  - unfold trimEnd. rewrite <- reverse_app, <- Hs. by rewrite reverse_involutive.
  - unfold allWhiteSpace. by rewrite Forall_reverse.
Qed.

Lemma trimEnd_last (s : jsstring) : endsWithWhiteSpace (trimEnd s) = false.
Proof.
  unfold endsWithWhiteSpace, trimEnd. rewrite reverse_involutive.
  apply trimStart_head.
Qed.

Lemma trimEnd_head (s : jsstring) :
  startsWithWhiteSpace s = false -> startsWithWhiteSpace (trimEnd s) = false.
Proof.
  intros Hs. destruct (trimEnd_split s) as [r [Hr _]].
  destruct (trimEnd s) as [|c t]; [reflexivity|].
  rewrite Hr in Hs. exact Hs.
Qed.

(** [trim] removes a run of white space at each end and leaves a text that
    neither starts nor ends with white space. *)
Lemma trim_spec (s : jsstring) :
  (exists l r, s = l ++ trim s ++ r /\ allWhiteSpace l /\ allWhiteSpace r)
  /\ startsWithWhiteSpace (trim s) = false
  /\ endsWithWhiteSpace (trim s) = false.
Proof.
  unfold trim. split; [|split].
  - destruct (trimStart_split s) as [l [Hl Wl]].
    destruct (trimEnd_split (trimStart s)) as [r [Hr Wr]].
    exists l, r. split; [|done]. by rewrite <- Hr.
  - apply trimEnd_head, trimStart_head.
  - apply trimEnd_last.
Qed.

(** ** Running handlers *)

Lemma exec_seq {A B} (m : M A) (k : M B) (w : World) :
  exec (m ;; k) w = exec k (exec m w).
Proof. unfold exec, bind. by destruct (m w). Qed.

Lemma exec_bind {A B} (m : M A) (k : A -> M B) (w : World) :
  exec (bind m k) w = exec (k (fst (m w))) (exec m w).
Proof. unfold exec, bind. by destruct (m w). Qed.

Lemma exec_ret {A} (a : A) (w : World) : exec (ret a) w = w.
Proof. reflexivity. Qed.

Lemma exec_handleSubmit (es : list Edit) (r : Settled) (w : World) :
  exec (handleSubmit es r) w
  = exec (handleSubmit_settle r) (exec (edits es) (exec submit w)).
Proof. unfold handleSubmit. by rewrite !exec_seq. Qed.

(** Unfolds a handler applied to a world down to the resulting record. *)
Ltac run_handler :=
  unfold exec, submit, handleSubmit_request, handleSubmit_settle,
    handleSubmit_catch, handleItemStatusChange, createCheck, showToast,
    onSuccess, setVehicles, setSelectedVehicle, setOdometerKm, setNote,
    setItems, setLoading, setError, setValidationErrors, perform, modify,
    bind, ret;
  simpl.

(** Editing the form touches neither the submitting flag, nor the error
    displays, nor the outside world. *)
Lemma edit_frame (e : Edit) (w : World) :
  loading (form (exec (edit e) w)) = loading (form w)
  /\ error (form (exec (edit e) w)) = error (form w)
  /\ validationErrors (form (exec (edit e) w)) = validationErrors (form w)
  /\ trace (exec (edit e) w) = trace w.
Proof. by destruct e. Qed.

Lemma edits_frame (es : list Edit) (w : World) :
  loading (form (exec (edits es) w)) = loading (form w)
  /\ error (form (exec (edits es) w)) = error (form w)
  /\ validationErrors (form (exec (edits es) w)) = validationErrors (form w)
  /\ trace (exec (edits es) w) = trace w.
Proof.
  revert w. induction es as [|e es IH]; intros w; [done|].
  cbn [edits]. rewrite exec_seq.
  destruct (IH (exec (edit e) w)) as (-> & -> & -> & ->).
  apply edit_frame.
Qed.

(** The submission in flight: what [submit] leaves behind. *)
Lemma submit_form (w : World) :
  form (exec submit w)
  = {| vehicles := vehicles (form w);
       selectedVehicle := selectedVehicle (form w);
       odometerKm := odometerKm (form w); note := note (form w);
       items := items (form w); loading := true; error := None;
       validationErrors := [] |}.
Proof. reflexivity. Qed.

Lemma submit_trace (w : World) :
  trace (exec submit w) = trace w ++ [CreateCheck (payload (form w))].
Proof. reflexivity. Qed.

(** ** The submitting flag *)

(** C4: the submitting flag is true from the moment the request is sent,
    whatever the user edits while it is in flight, and false once the
    handler has resumed, whether the request was accepted, rejected with
    details or rejected without. *)
Theorem loading_true_during_call_false_after :
  forall (w : World) (es : list Edit) (r : Settled),
    loading (form (exec (submit ;; edits es) w)) = true
    /\ loading (form (exec (handleSubmit es r) w)) = false.
Proof.
  intros w es r. split.
  - rewrite exec_seq. destruct (edits_frame es (exec submit w)) as (-> & _).
    reflexivity.
  - rewrite exec_handleSubmit. unfold handleSubmit_settle.
    by rewrite exec_bind, exec_seq.
Qed.

(** ** Stale errors *)

(** C8: [submit] sends the request from a world in which both error displays
    have already been emptied, and they stay empty for as long as the request
    is in flight. *)
Theorem submit_clears_errors_before_request :
  forall (w : World),
    (exists w0 : World,
        error (form w0) = None
        /\ validationErrors (form w0) = []
        /\ trace w0 = trace w
        /\ exec submit w = exec (createCheck (payload (form w))) w0)
    /\ forall es : list Edit,
        error (form (exec (submit ;; edits es) w)) = None
        /\ validationErrors (form (exec (submit ;; edits es) w)) = [].
Proof.
  intros w. split.
  - exists (exec (setError None ;; setValidationErrors [] ;; setLoading true) w).
    repeat split; reflexivity.
  - intros es. rewrite exec_seq.
    destruct (edits_frame es (exec submit w)) as (_ & -> & -> & _).
    by rewrite submit_form.
Qed.

(** ** Failed submissions *)




(** The [catch] block by what the rejection comes to. *)
Lemma handleSubmit_catch_kind (err : value) :
  handleSubmit_catch err
  = match rejectionKind err with
    | WithDetails texts =>
        setValidationErrors texts ;;
        showToast (default (lit "Validation failed.") (head texts)) error_toast ;;
        ret Normal
    | WithoutDetails =>
        setError (Some genericMessage) ;;
        showToast genericMessage error_toast ;;
        ret Normal
    | Unreadable => ret Throw
    end.
Proof.
  unfold handleSubmit_catch, rejectionKind.
  destruct (errorDetails err) as [[| |b|t|s|ds|ps]|]; try reflexivity.
  - by destruct b.
  - by destruct (toBoolean (VNumber t)).
  - by destruct s.
  - simpl. by destruct (mapM detailText ds).
Qed.

Lemma settle_rejected_form (err : value) (w : World) :
  form (exec (handleSubmit_settle (Rejected err)) w)
  = {| vehicles := vehicles (form w);
       selectedVehicle := selectedVehicle (form w);
       odometerKm := odometerKm (form w); note := note (form w);
       items := items (form w); loading := false;
       error :=
         match rejectionKind err with
         | WithoutDetails => Some genericMessage
         | _ => error (form w)
         end;
       validationErrors :=
         match rejectionKind err with
         | WithDetails texts => texts
         | _ => validationErrors (form w)
         end |}.
Proof.
  unfold handleSubmit_settle. rewrite handleSubmit_catch_kind.
  by destruct (rejectionKind err).
Qed.

Lemma settle_rejected_trace (err : value) (w : World) :
  trace (exec (handleSubmit_settle (Rejected err)) w)
  = trace w ++
    match rejectionKind err with
    | WithDetails texts =>
        [ShowToast (default (lit "Validation failed.") (head texts)) error_toast]
    | WithoutDetails => [ShowToast genericMessage error_toast]
    | Unreadable => []
    end.
Proof.
  unfold handleSubmit_settle. rewrite handleSubmit_catch_kind.
  destruct (rejectionKind err); try reflexivity.
  simpl. by rewrite app_nil_r.
Qed.

Lemma settle_rejected_completion (err : value) (w : World) :
  fst (handleSubmit_settle (Rejected err) w)
  = match rejectionKind err with Unreadable => Throw | _ => Normal end.
Proof.
  unfold handleSubmit_settle. rewrite handleSubmit_catch_kind.
  by destruct (rejectionKind err).
Qed.


(** What a rejected submission leaves in the two error displays. *)
Lemma rejected_displays (err : value) (es : list Edit) (w : World) :
  error (form (exec (handleSubmit es (Rejected err)) w))
  = match rejectionKind err with
    | WithoutDetails => Some genericMessage
    | _ => None
    end
  /\ validationErrors (form (exec (handleSubmit es (Rejected err)) w))
     = match rejectionKind err with WithDetails texts => texts | _ => [] end.
Proof.
  rewrite exec_handleSubmit, settle_rejected_form. cbn [error validationErrors].
  destruct (edits_frame es (exec submit w)) as (_ & -> & -> & _).
  rewrite submit_form. by destruct (rejectionKind err).
Qed.




(** C3: a rejected submission, with or without details, changes nothing in
    the form but the two error displays; the submitting flag is back to
    false.  This holds of the resumed handler in any state, and so of a whole
    submission with respect to the values the form had when it was
    submitted. *)
Theorem failure_preserves_fields :
  forall (err : value) (w : World),
    let settled := form (exec (handleSubmit_settle (Rejected err)) w) in
    let resolved := form (exec (handleSubmit [] (Rejected err)) w) in
    settled
    = {| vehicles := vehicles (form w);
         selectedVehicle := selectedVehicle (form w);
         odometerKm := odometerKm (form w); note := note (form w);
         items := items (form w); loading := false;
         error := error settled;
         validationErrors := validationErrors settled |}
    /\ resolved
       = {| vehicles := vehicles (form w);
            selectedVehicle := selectedVehicle (form w);
            odometerKm := odometerKm (form w); note := note (form w);
            items := items (form w); loading := false;
            error := error resolved;
            validationErrors := validationErrors resolved |}.
Proof.
  intros err w settled resolved. split.
  - unfold settled. by rewrite settle_rejected_form.
  - unfold resolved. rewrite exec_handleSubmit, settle_rejected_form.
    cbn [edits]. by rewrite exec_ret, submit_form.
Qed.

(** C10: when a submission has resolved, the generic message and the
    validation list are never both displayed: either the generic message
    alone, or a non-empty validation list alone, or neither. *)
Theorem error_displays_exclusive :
  forall (w : World) (es : list Edit) (r : Settled),
    let s := form (exec (handleSubmit es r) w) in
    ((error s = Some genericMessage /\ validationErrors s = [])
     \/ (validationErrors s <> [] /\ error s = None)
     \/ (error s = None /\ validationErrors s = []))
    /\ ~ (error s <> None /\ validationErrors s <> []).
Proof.
  intros w es r s.
  assert (H : error s = None \/ validationErrors s = []
              /\ error s = Some genericMessage).
  { unfold s. destruct r as [|err].
    - left. rewrite exec_handleSubmit.
      destruct (edits_frame es (exec submit w)) as (_ & He & _).
      rewrite submit_form in He. cbn [error] in He.
      revert He. generalize (exec (edits es) (exec submit w)). intros w0 He.
      exact He.
    - destruct (rejected_displays err es w) as [-> ->].
      destruct (rejectionKind err); [by left | by right | by left]. }
  split.
  - destruct H as [He | [Hv He]].
    + destruct (validationErrors s) eqn:Hv; [by right; right | right; left].
      by split.
    + by left.
  - intros [He Hv]. destruct H as [H | [H _]]; congruence.
Qed.

(** ** Accepted submissions *)

(** C2: when the request is accepted, the checklist is again the five items
    TYRES, BRAKES, LIGHTS, OIL, COOLANT, all OK, as in the initial state; the
    vehicle selection, the odometer and the note are empty again; and the
    handler has shown the success toast and then called [onSuccess], which
    takes no argument. *)
Theorem success_resets_form :
  forall (w : World) (es : list Edit),
    let w1 := exec (submit ;; edits es) w in
    let w' := exec (handleSubmit es Fulfilled) w in
    items (form w')
    = [ {| key := TYRES; status := OK |}; {| key := BRAKES; status := OK |};
        {| key := LIGHTS; status := OK |}; {| key := OIL; status := OK |};
        {| key := COOLANT; status := OK |} ]
    /\ items (form w') = items initialState
    /\ selectedVehicle (form w') = [] /\ odometerKm (form w') = []
    /\ note (form w') = []
    /\ selectedVehicle (form w') = selectedVehicle initialState
    /\ odometerKm (form w') = odometerKm initialState
    /\ note (form w') = note initialState
    /\ trace w'
       = trace w1 ++
         [ShowToast (lit "Inspection submitted successfully.") success; OnSuccess].
Proof.
  intros w es w1 w'. unfold w', w1. rewrite exec_handleSubmit, exec_seq.
  generalize (exec (edits es) (exec submit w)). intros w0.
  repeat split. run_handler. by rewrite <- app_assoc.
Qed.

(** ** The payload *)

(** C5: the request carries a note exactly when the trimmed note text is not
    empty, and then the note is the trimmed text, which is the note text
    without a run of white space at each end; an empty note is never sent.
    A note of three spaces is left out, and ["  hi  "] is sent as ["hi"]. *)
Theorem note_sent_iff_trimmed_nonempty :
  forall (w : World),
    (exists c : Check,
        trace (exec submit w) = trace w ++ [CreateCheck c]
        /\ match Types.note c with
           | Some t => t = trim (note (form w)) /\ t <> []
           | None => trim (note (form w)) = []
           end
        /\ Types.note c <> Some [])
    /\ (exists l r : jsstring,
           note (form w) = l ++ trim (note (form w)) ++ r
           /\ allWhiteSpace l /\ allWhiteSpace r)
    /\ startsWithWhiteSpace (trim (note (form w))) = false
    /\ endsWithWhiteSpace (trim (note (form w))) = false
    /\ Types.note (payload (form (exec (setNote (lit "   ")) w))) = None
    /\ Types.note (payload (form (exec (setNote (lit "  hi  ")) w)))
       = Some (lit "hi").
Proof.
  intros w. split.
  - exists (payload (form w)). split; [apply submit_trace|].
    unfold payload. cbn [Types.note].
    destruct (trim (note (form w))) as [|c t] eqn:Ht; cbn [truthy]; done.
  - destruct (trim_spec (note (form w))) as (Hsplit & Hs & He).
    repeat split; done.
Qed.

(** C9: the request carries the selected vehicle id as it is, the odometer
    text as [parseFloat] reads it and the checklist as it is, and it is sent
    whatever the odometer text parses to: with an empty odometer text the
    request goes out with [NaN], with ["-5"] it goes out with minus five. *)
Theorem payload_built_verbatim :
  forall (w : World),
    (exists c : Check,
        trace (exec submit w) = trace w ++ [CreateCheck c]
        /\ vehicleId c = selectedVehicle (form w)
        /\ Types.odometerKm c = parseFloat (odometerKm (form w))
        /\ Types.items c = items (form w))
    /\ parseFloat (lit "") = NaN
    /\ trace (exec (setOdometerKm (lit "") ;; submit) w)
       = trace w ++
         [CreateCheck {| vehicleId := selectedVehicle (form w);
                         Types.odometerKm := NaN;
                         Types.items := items (form w);
                         Types.note := Types.note (payload (form w)) |}]
    /\ trace (exec (setOdometerKm (lit "-5") ;; submit) w)
       = trace w ++
         [CreateCheck {| vehicleId := selectedVehicle (form w);
                         Types.odometerKm := Decimal true 5 0;
                         Types.items := items (form w);
                         Types.note := Types.note (payload (form w)) |}].
Proof.
  intros w. split; [|repeat split].
  exists (payload (form w)). split; [apply submit_trace | done].
Qed.

(** ** The checklist *)

Lemma handleItemStatusChange_items (k : CheckItemKey) (st : Status) (w : World) :
  items (form (exec (handleItemStatusChange k st) w))
  = (fun item =>
       if decide (key item = k) then {| key := key item; status := st |}
       else item) <$> items (form w).
Proof. reflexivity. Qed.

Lemma handleItemStatusChange_keys (k : CheckItemKey) (st : Status) (w : World) :
  key <$> items (form (exec (handleItemStatusChange k st) w))
  = key <$> items (form w).
Proof.
  rewrite handleItemStatusChange_items, <- list_fmap_compose.
  apply list_fmap_ext. intros i item _. simpl. by case_decide.
Qed.

Lemma setStatuses_keys (calls : list (CheckItemKey * Status)) (w : World) :
  key <$> items (form (exec (setStatuses calls) w)) = key <$> items (form w).
Proof.
  revert w. induction calls as [|[k st] calls IH]; intros w; [done|].
  cbn [setStatuses]. rewrite exec_seq, IH. apply handleItemStatusChange_keys.
Qed.

(** C6: the checklist starts as the five items TYRES, BRAKES, LIGHTS, OIL,
    COOLANT, all OK, and after any sequence of status changes it still has
    the five keys in that order: five entries, no key twice, no key missing,
    every status OK or FAIL. *)
Theorem checklist_closure :
  items initialState
  = [ {| key := TYRES; status := OK |}; {| key := BRAKES; status := OK |};
      {| key := LIGHTS; status := OK |}; {| key := OIL; status := OK |};
      {| key := COOLANT; status := OK |} ]
  /\ forall calls : list (CheckItemKey * Status),
      let its := items (form (exec (setStatuses calls) initialWorld)) in
      key <$> its = CHECK_ITEMS
      /\ length its = 5
      /\ NoDup (key <$> its)
      /\ (forall k : CheckItemKey, k ∈ key <$> its)
      /\ Forall (fun item => status item = OK \/ status item = FAIL) its.
Proof.
  split; [reflexivity|]. intros calls its.
  assert (Hk : key <$> its = CHECK_ITEMS) by apply setStatuses_keys.
  split; [exact Hk|]. split; [|split; [|split]].
  - rewrite <- (length_fmap key), Hk. reflexivity.
  - rewrite Hk. compute_done.
  - intros k. rewrite Hk. destruct k; compute_done.
  - apply Forall_forall. intros [k []] _; auto.
Qed.

(** C7: a status change gives the chosen status to the entries with the
    chosen key and leaves every other entry as it was; the entries keep their
    positions and their keys, and nothing else in the form changes.  The
    handler is a total function: there is no input on which it fails. *)
Theorem setStatus_replaces_matching_only :
  forall (w : World) (k : CheckItemKey) (st : Status),
    let w' := exec (handleItemStatusChange k st) w in
    length (items (form w')) = length (items (form w))
    /\ key <$> items (form w') = key <$> items (form w)
    /\ (forall i : nat,
           items (form w') !! i
           = (fun item =>
                if decide (key item = k) then {| key := k; status := st |}
                else item) <$> items (form w) !! i)
    /\ form w'
       = {| vehicles := vehicles (form w);
            selectedVehicle := selectedVehicle (form w);
            odometerKm := odometerKm (form w); note := note (form w);
            items := items (form w'); loading := loading (form w);
            error := error (form w);
            validationErrors := validationErrors (form w) |}
    /\ trace w' = trace w.
Proof.
  intros w k st w'. split; [|split; [|split; [|split]]].
  - unfold w'. rewrite handleItemStatusChange_items. apply length_fmap.
  - apply handleItemStatusChange_keys.
  - intros i. unfold w'. rewrite handleItemStatusChange_items, list_lookup_fmap.
    destruct (items (form w) !! i) as [item|]; [|done]. simpl.
    case_decide; [by subst|done].
  - reflexivity.
  - reflexivity.
Qed.

(** The checklist keeps its five keys through everything the form does:
    edits, and whole submissions however they settle. *)
Lemma edits_keys (es : list Edit) (w : World) :
  key <$> items (form (exec (edits es) w)) = key <$> items (form w).
Proof.
  revert w. induction es as [|e es IH]; intros w; [done|].
  cbn [edits]. rewrite exec_seq, IH.
  destruct e; try reflexivity. apply handleItemStatusChange_keys.
Qed.

Lemma handleSubmit_keys (es : list Edit) (r : Settled) (w : World) :
  key <$> items (form w) = CHECK_ITEMS ->
  key <$> items (form (exec (handleSubmit es r) w)) = CHECK_ITEMS.
Proof.
  intros Hw. rewrite exec_handleSubmit. destruct r as [|err].
  - reflexivity.
  - rewrite settle_rejected_form. cbn [items]. by rewrite edits_keys.
Qed.

(** ** The form in the browser *)

Lemma countEffects_app (p : Effect -> bool) (l1 l2 : list Effect) :
  countEffects p (l1 ++ l2) = countEffects p l1 + countEffects p l2.
Proof. induction l1 as [|e l1 IH]; simpl; [done | rewrite IH; lia]. Qed.

Lemma clickRadio_keys (i : nat) (st : Status) (w : World) :
  key <$> items (form (exec (clickRadio i st) w)) = key <$> items (form w).
Proof.
  unfold exec, clickRadio. destruct (items (form w) !! i) as [item|]; [|done].
  apply handleItemStatusChange_keys.
Qed.

Lemma clickRadio_frame (i : nat) (st : Status) (w : World) :
  loading (form (exec (clickRadio i st) w)) = loading (form w)
  /\ error (form (exec (clickRadio i st) w)) = error (form w)
  /\ validationErrors (form (exec (clickRadio i st) w))
     = validationErrors (form w)
  /\ trace (exec (clickRadio i st) w) = trace w.
Proof.
  unfold exec, clickRadio. destruct (items (form w) !! i) as [item|]; auto.
Qed.

Lemma Consistent_mounted : Consistent mounted.
Proof. constructor; simpl; auto. Qed.

Lemma Consistent_dispatch (ev : UIEvent) (b : Browser) :
  Consistent b -> Consistent (dispatch ev b).
Proof.
  intros [Hp Hl Hd Hg Hk Ht Hv]. destruct ev as [v|v|v|i st| |r|r]; simpl.
  - constructor; assumption.
  - constructor; assumption.
  - constructor; assumption.
  - destruct (clickRadio_frame i st (world b)) as (Hfl & Hfe & Hfv & Htr).
    constructor; simpl; rewrite ?Htr, ?Hfl, ?Hfe, ?Hfv; try assumption.
    exact (eq_trans (clickRadio_keys i st (world b)) Hk).
  - destruct (loading (form (world b))) eqn:Hload.
    { constructor; rewrite ?Hload; assumption. }
    constructor; simpl; auto;
      rewrite ?countEffects_app, ?Ht, ?Hv, ?Hp; simpl; lia.
  - destruct (pendingChecks b) as [|n] eqn:Hn.
    { constructor; rewrite ?Hn; assumption. }
    destruct (loading (form (world b))) eqn:Hload; [|discriminate Hp].
    destruct (Hl eq_refl) as [He Hve]. injection Hp as ->.
    destruct r as [|err].
    + constructor; simpl; auto;
        rewrite ?app_assoc, ?countEffects_app; simpl; lia.
    + constructor; cbn [world pendingChecks unhandledRejections];
        rewrite ?settle_rejected_form, ?settle_rejected_trace,
          ?settle_rejected_completion;
        cbn [form loading error validationErrors items];
        rewrite ?He, ?Hve, ?countEffects_app; try assumption;
        try (destruct (rejectionKind err); auto; fail);
        try (intros; discriminate);
        destruct (rejectionKind err); simpl; lia.
  - destruct (pendingVehicles b); [|constructor; assumption].
    destruct r as [vs|]; constructor; assumption.
Qed.

Lemma Consistent_browse (evs : list UIEvent) (b : Browser) :
  Consistent b -> Consistent (browse evs b).
Proof.
  revert b. induction evs as [|ev evs IH]; intros b Hb; [exact Hb|].
  apply IH, Consistent_dispatch, Hb.
Qed.

Lemma Consistent_reachable (evs : list UIEvent) : Consistent (browse evs mounted).
Proof. apply Consistent_browse, Consistent_mounted. Qed.

(** X1: at most one submission is in flight, and the submit button is disabled
    exactly while one is: every request was sent with the button enabled
    and no other request pending. *)
Theorem one_submission_in_flight :
  forall evs : list UIEvent,
    let b := browse evs mounted in
    pendingChecks b <= 1
    /\ pendingChecks b
       = (if submitDisabled (render (form (world b))) then 1 else 0)
    /\ submitLabel (render (form (world b)))
       = (match pendingChecks b with
          | O => lit "Submit Check"
          | S _ => lit "Submitting..."
          end).
Proof.
  intros evs b. destruct (Consistent_reachable evs) as [Hp _ _ _ _ _ _].
  fold b in Hp. cbn [render submitDisabled submitLabel].
  destruct (loading (form (world b))); rewrite Hp; auto.
Qed.

(** X2: the two banners are never rendered together, the error banner only ever
    shows the generic message, and no banner is rendered while a submission
    is in flight. *)
Theorem banners_never_together :
  forall evs : list UIEvent,
    let v := render (form (world (browse evs mounted))) in
    (errorBanner v = None
     \/ (errorBanner v = Some genericMessage /\ validationBanner v = None))
    /\ (if submitDisabled v
        then errorBanner v = None /\ validationBanner v = None
        else True).
Proof.
  intros evs v. destruct (Consistent_reachable evs) as [_ Hl Hd Hg _ _ _].
  unfold v. cbn [render errorBanner validationBanner submitDisabled].
  set (s := form (world (browse evs mounted))) in *. split.
  - destruct Hg as [-> | Hg]; [by left|].
    rewrite Hg in Hd |- *. destruct Hd as [Hd | ->]; [discriminate Hd|].
    right. split; reflexivity.
  - destruct (loading s); [|exact I].
    destruct (Hl eq_refl) as [-> ->]. split; reflexivity.
Qed.

(** X3: the checklist always shows the five keys, each once and in the order of
    [CHECK_ITEMS], and in every row exactly one of the two radios is
    checked. *)
Theorem checklist_rows_always_five :
  forall evs : list UIEvent,
    let rows := checklist (render (form (world (browse evs mounted)))) in
    rowKey <$> rows = CHECK_ITEMS
    /\ Forall (fun row => okChecked row = negb (failChecked row)) rows.
Proof.
  intros evs rows. destruct (Consistent_reachable evs) as [_ _ _ _ Hk _ _].
  unfold rows. cbn [render checklist]. split.
  - rewrite <- list_fmap_compose. exact Hk.
  - apply Forall_fmap, Forall_forall. intros [k []] _; reflexivity.
Qed.




Lemma dispatch_vehicles (ev : UIEvent) (b : Browser) :
  vehicles (form (world (dispatch ev b)))
  = (match ev with
     | VehiclesSettled (Some vs) => if pendingVehicles b then vs else vehicles (form (world b))
     | _ => vehicles (form (world b))
     end)
  /\ pendingVehicles (dispatch ev b)
     = (match ev with
        | VehiclesSettled _ => false
        | _ => pendingVehicles b
        end)
  /\ consoleErrors (dispatch ev b)
     = (match ev with
        | VehiclesSettled None =>
            if pendingVehicles b then S (consoleErrors b) else consoleErrors b
        | _ => consoleErrors b
        end).
Proof.
  destruct ev as [v|v|v|i st| |r|r];
    cbn [dispatch onWorld world pendingVehicles consoleErrors render
         submitDisabled]; auto.
  - unfold exec, clickRadio.
    destruct (items (form (world b)) !! i); auto.
  - destruct (loading (form (world b))); auto.
  - destruct (pendingChecks b); auto.
    destruct r as [|err]; cbn [world pendingVehicles consoleErrors]; auto.
    rewrite settle_rejected_form. auto.
  - destruct (pendingVehicles b) eqn:Hb, r; auto.
Qed.

Lemma browse_cons (ev : UIEvent) (evs : list UIEvent) (b : Browser) :
  browse (ev :: evs) b = browse evs (dispatch ev b).
Proof. reflexivity. Qed.

Lemma browse_settled_vehicles (evs : list UIEvent) (b : Browser) :
  pendingVehicles b = false ->
  vehicles (form (world (browse evs b))) = vehicles (form (world b))
  /\ consoleErrors (browse evs b) = consoleErrors b.
Proof.
  revert b. induction evs as [|ev evs IH]; intros b Hb; [done|].
  destruct (dispatch_vehicles ev b) as (Hv & Hp & Hc).
  rewrite browse_cons. destruct (IH (dispatch ev b)) as [-> ->].
  - rewrite Hp. by destruct ev.
  - rewrite Hv, Hc, Hb. split; [by destruct ev as [| | | | | |[|]] | by destruct ev as [| | | | | |[|]]].
Qed.

Lemma browse_pending_vehicles (evs : list UIEvent) (b : Browser) :
  pendingVehicles b = true ->
  vehicles (form (world (browse evs b)))
  = (match firstVehiclesSettled evs with
     | Some (Some vs) => vs
     | _ => vehicles (form (world b))
     end)
  /\ consoleErrors (browse evs b)
     = (match firstVehiclesSettled evs with
        | Some None => S (consoleErrors b)
        | _ => consoleErrors b
        end).
Proof.
  revert b. induction evs as [|ev evs IH]; intros b Hb; [done|].
  destruct (dispatch_vehicles ev b) as (Hv & Hp & Hc).
  rewrite browse_cons.
  pose proof (IH (dispatch ev b)) as IH'.
  destruct ev as [v|v|v|i st| |r|r]; cbn [firstVehiclesSettled];
    try (destruct IH' as [-> ->]; [by rewrite Hp | by rewrite Hv, Hc]).
  destruct (browse_settled_vehicles evs (dispatch (VehiclesSettled r) b) Hp)
    as [-> ->].
  rewrite Hv, Hc, Hb. by destruct r.
Qed.

(** X5: the vehicle list is requested once, on mount, and never again; what the
    form offers is decided by the first settlement of that request.  Until
    then, and for good if the request is rejected, the select offers the
    placeholder alone; if it is fulfilled, the placeholder and then the ids
    of the vehicles received, in their order.  A rejection is reported to
    the console once and shows nothing in the form. *)
Theorem vehicle_options_decided_by_first_settlement :
  forall evs : list UIEvent,
    let b := browse evs mounted in
    countEffects isGetVehicles (trace (world b)) = 1
    /\ vehicleOptions (render (form (world b)))
       = (match firstVehiclesSettled evs with
          | Some (Some vs) => lit "" :: (Types.id <$> vs)
          | _ => [lit ""]
          end)
    /\ consoleErrors b
       = (match firstVehiclesSettled evs with
          | Some None => 1
          | _ => 0
          end).
Proof.
  intros evs b. destruct (Consistent_reachable evs) as [_ _ _ _ _ _ Hv].
  split; [exact Hv|].
  destruct (browse_pending_vehicles evs mounted eq_refl) as [Hvs Hc].
  fold b in Hvs, Hc. cbn [render vehicleOptions]. rewrite Hvs, Hc.
  by destruct (firstVehiclesSettled evs) as [[vs|]|].
Qed.

(** ** Whole submissions *)

Lemma payload_frame (s s' : FormState) :
  selectedVehicle s' = selectedVehicle s -> odometerKm s' = odometerKm s ->
  items s' = items s -> note s' = note s ->
  payload s' = payload s.
Proof. unfold payload. by intros -> -> -> ->. Qed.


(** X7: [handleSubmit] has no guard of its own against being run while a request
    is in flight: run twice in a row, also with the submitting flag already
    set, it sends the same request twice.  Only the disabled button stands
    between the user and a second request. *)
Theorem submit_has_no_guard :
  forall w : World,
    trace (exec (submit ;; submit) w)
    = trace w ++
      [CreateCheck (payload (form w)); CreateCheck (payload (form w))]
    /\ submitDisabled (render (form (exec submit w))) = true.
Proof.
  intros w. split; [|reflexivity].
  rewrite exec_seq, submit_trace, submit_trace, <- app_assoc.
  rewrite (payload_frame (form w) (form (exec submit w))); reflexivity.
Qed.

(** X8: after an accepted submission the form is its initial state again, but
    for the vehicle list, which is kept: the error displays are empty, the
    submitting flag is false, and whatever was typed or ticked while the
    request was in flight is gone. *)
Theorem success_restores_initial_state :
  forall (w : World) (es : list Edit),
    form (exec (handleSubmit es Fulfilled) w)
    = {| vehicles := vehicles (form (exec (submit ;; edits es) w));
         selectedVehicle := selectedVehicle initialState;
         odometerKm := odometerKm initialState;
         note := note initialState;
         items := items initialState;
         loading := loading initialState;
         error := error initialState;
         validationErrors := validationErrors initialState |}.
Proof.
  intros w es. rewrite exec_handleSubmit, exec_seq.
  destruct (edits_frame es (exec submit w)) as (_ & He & Hv & _).
  rewrite submit_form in He, Hv. cbn [error validationErrors] in He, Hv.
  revert He Hv. generalize (exec (edits es) (exec submit w)). intros w0 He Hv.
  run_handler. by rewrite He, Hv.
Qed.

(** X9: a rejected submission can be retried as it is: submitted again without
    an edit, the form sends the very request that was rejected. *)
Theorem retry_sends_same_request :
  forall (w : World) (err : value),
    payload (form (exec (handleSubmit [] (Rejected err)) w)) = payload (form w)
    /\ trace (exec (handleSubmit [] (Rejected err) ;; submit) w)
       = trace w ++
         CreateCheck (payload (form w)) ::
         match rejectionKind err with
         | WithDetails texts =>
             [ShowToast (default (lit "Validation failed.") (head texts))
                        error_toast]
         | WithoutDetails => [ShowToast genericMessage error_toast]
         | Unreadable => []
         end
         ++ [CreateCheck (payload (form w))].
Proof.
  intros w err.
  assert (Hp : payload (form (exec (handleSubmit [] (Rejected err)) w))
               = payload (form w)).
  { rewrite exec_handleSubmit, settle_rejected_form. reflexivity. }
  split; [exact Hp|].
  rewrite exec_bind, submit_trace, Hp.
  rewrite exec_handleSubmit, settle_rejected_trace. cbn [edits].
  rewrite exec_ret, submit_trace, <- !app_assoc. reflexivity.
Qed.

(** ** What the user sees of a failure *)

Lemma formatDetail_has_colon (d : ValidationErrorDetail) :
  58%N ∈ formatDetail d.
Proof.
  unfold formatDetail. apply elem_of_app. right. apply elem_of_app. left.
  compute_done.
Qed.

Lemma formatDetail_nonempty (d : ValidationErrorDetail) : formatDetail d <> [].
Proof.
  intros H. pose proof (formatDetail_has_colon d) as Hc. rewrite H in Hc.
  by apply elem_of_nil in Hc.
Qed.

Lemma detailText_ofDetail (d : ValidationErrorDetail) :
  detailText (ofDetail d) = Some (formatDetail d).
Proof. reflexivity. Qed.

Lemma mapM_detailText_ofDetail (ds : list ValidationErrorDetail) :
  mapM detailText (ofDetail <$> ds) = Some (formatDetail <$> ds).
Proof.
  induction ds as [|d ds IH]; [reflexivity|].
  cbn [fmap list_fmap mapM]. rewrite detailText_ofDetail. simpl.
  change (mapM detailText (ofDetail <$> ds) = Some (formatDetail <$> ds)) in IH.
  by rewrite IH.
Qed.

(** An error of the declared shape comes to its details, formatted, when it
    has a list of them, and to no details otherwise; it can always be read. *)
Lemma rejectionKind_ofErrorResponse (e : ErrorResponse) :
  rejectionKind (ofErrorResponse e)
  = match Types.error e with
    | Some {| details := Some ds |} => WithDetails (formatDetail <$> ds)
    | _ => WithoutDetails
    end.
Proof.
  destruct e as [[[[ds|]]|]]; try reflexivity.
  assert (H : errorDetails
                (ofErrorResponse {| Types.error := Some {| details := Some ds |} |})
              = Some (VArray (ofDetail <$> ds))) by reflexivity.
  unfold rejectionKind. rewrite H, mapM_detailText_ofDetail. reflexivity.
Qed.

(** X10: the toast of the validation branch is the fallback "Validation failed."
    exactly when the details list is empty: a formatted detail holds a colon
    and so is never mistaken for the fallback. *)
Theorem fallback_toast_iff_no_details :
  forall (ds : list ValidationErrorDetail) (w : World),
    trace (exec (handleSubmit_catch
                   (ofErrorResponse
                      {| Types.error := Some {| details := Some ds |} |})) w)
    = trace w ++ [ShowToast (lit "Validation failed.") error_toast]
    <-> ds = [].
Proof.
  intros ds w. rewrite handleSubmit_catch_kind, rejectionKind_ofErrorResponse.
  cbn [Types.error details]. split.
  - destruct ds as [|d ds]; [done|]. intros H. exfalso.
    change (trace w ++ [ShowToast (formatDetail d) error_toast]
            = trace w ++ [ShowToast (lit "Validation failed.") error_toast]) in H.
    apply app_inv_head in H. injection H as H.
    pose proof (formatDetail_has_colon d) as Hc. rewrite H in Hc.
    revert Hc. compute_done.
  - intros ->. reflexivity.
Qed.


(** ** Changing statuses *)

Lemma world_eq (w1 w2 : World) :
  form w1 = form w2 -> trace w1 = trace w2 -> w1 = w2.
Proof. destruct w1, w2. simpl. by intros -> ->. Qed.

Lemma handleItemStatusChange_world (k : CheckItemKey) (st : Status) (w : World) :
  exec (handleItemStatusChange k st) w
  = {| form :=
         {| vehicles := vehicles (form w);
            selectedVehicle := selectedVehicle (form w);
            odometerKm := odometerKm (form w); note := note (form w);
            items :=
              (fun item =>
                 if decide (key item = k)
                 then {| key := key item; status := st |} else item)
                <$> items (form w);
            loading := loading (form w); error := error (form w);
            validationErrors := validationErrors (form w) |};
       trace := trace w |}.
Proof. reflexivity. Qed.

(** X12: of two status changes for the same key the later one wins; in
    particular, making the same change twice is making it once. *)
Theorem status_change_last_wins :
  forall (w : World) (k : CheckItemKey) (st1 st2 : Status),
    exec (handleItemStatusChange k st1 ;; handleItemStatusChange k st2) w
    = exec (handleItemStatusChange k st2) w.
Proof.
  intros w k st1 st2. rewrite exec_seq, !handleItemStatusChange_world.
  cbn [form trace vehicles selectedVehicle odometerKm note items loading error
       validationErrors].
  do 2 f_equal. rewrite <- list_fmap_compose. apply list_fmap_ext.
  intros i [k' st'] _. simpl. repeat (case_decide; simpl in *); congruence.
Qed.

(** X13: status changes for different keys do not interfere: in either order
    they give the same checklist. *)
Theorem status_changes_commute :
  forall (w : World) (k1 k2 : CheckItemKey) (st1 st2 : Status),
    k1 <> k2 ->
    exec (handleItemStatusChange k1 st1 ;; handleItemStatusChange k2 st2) w
    = exec (handleItemStatusChange k2 st2 ;; handleItemStatusChange k1 st1) w.
Proof.
  intros w k1 k2 st1 st2 Hne. rewrite !exec_seq, !handleItemStatusChange_world.
  cbn [form trace vehicles selectedVehicle odometerKm note items loading error
       validationErrors].
  do 2 f_equal. rewrite <- !list_fmap_compose. apply list_fmap_ext.
  intros i [k' st'] _. simpl. repeat (case_decide; simpl in *); congruence.
Qed.

Lemma status_changes_commute_witness :
  TYRES <> OIL
  /\ exec (handleItemStatusChange TYRES FAIL ;; handleItemStatusChange OIL FAIL)
          initialWorld
     = exec (handleItemStatusChange OIL FAIL ;; handleItemStatusChange TYRES FAIL)
            initialWorld.
Proof.
  split; [discriminate|].
  apply (status_changes_commute initialWorld TYRES OIL FAIL FAIL). discriminate.
Defined.

(** X14: when no key occurs twice in the checklist, a click on a radio of row [i]
    sets the status of row [i] and of no other row; a click on a row that
    does not exist changes nothing. *)
Theorem clickRadio_changes_its_row_only :
  forall (w : World) (i : nat) (st : Status),
    NoDup (key <$> items (form w)) ->
    items (form (exec (clickRadio i st) w))
    = alter (fun item => {| key := key item; status := st |}) i (items (form w)).
Proof.
  intros w i st Hnd. unfold exec, clickRadio.
  destruct (items (form w) !! i) as [item|] eqn:Hi.
  - change (snd (handleItemStatusChange (key item) st w))
      with (exec (handleItemStatusChange (key item) st) w).
    rewrite handleItemStatusChange_items. apply list_eq. intros j.
    rewrite list_lookup_fmap. destruct (decide (j = i)) as [->|Hji].
    + rewrite list_lookup_alter_eq, Hi. simpl. by case_decide.
    + rewrite list_lookup_alter_ne by (intros E; by apply Hji).
      destruct (items (form w) !! j) as [item'|] eqn:Hj; [|done]. simpl.
      case_decide as Hk; [|done]. exfalso. apply Hji.
      apply (NoDup_lookup (key <$> items (form w)) j i (key item')); [done| |].
      * by rewrite list_lookup_fmap, Hj.
      * rewrite list_lookup_fmap, Hi. simpl. by rewrite Hk.
  - simpl. symmetry. apply list_eq. intros j.
    destruct (decide (j = i)) as [->|Hji].
    + by rewrite list_lookup_alter_eq, Hi.
    + rewrite list_lookup_alter_ne by (intros E; by apply Hji). done.
Qed.

Lemma clickRadio_changes_its_row_only_witness :
  NoDup (key <$> items (form initialWorld))
  /\ items (form (exec (clickRadio 1 FAIL) initialWorld))
     = alter (fun item => {| key := key item; status := FAIL |}) 1
             (items (form initialWorld)).
Proof.
  assert (H : NoDup (key <$> items (form initialWorld))) by compute_done.
  split; [exact H|].
  apply (clickRadio_changes_its_row_only initialWorld 1 FAIL H).
Defined.

(** ** The note and the odometer in the request *)

Lemma trimStart_all_white (l : jsstring) : allWhiteSpace l -> trimStart l = [].
Proof. induction 1 as [|c l Hc _ IH]; simpl; [done | by rewrite Hc]. Qed.

Lemma trimStart_app_white (l s : jsstring) :
  allWhiteSpace l -> trimStart (l ++ s) = trimStart s.
Proof. induction 1 as [|c l Hc _ IH]; simpl; [done | by rewrite Hc]. Qed.

Lemma trimStart_app (s r : jsstring) :
  trimStart (s ++ r)
  = match trimStart s with [] => trimStart r | _ :: _ => trimStart s ++ r end.
Proof.
  induction s as [|c s IH]; simpl; [by destruct (trimStart r)|].
  by destruct (isWhiteSpace c).
Qed.

Lemma trimEnd_app_white (s r : jsstring) :
  allWhiteSpace r -> trimEnd (s ++ r) = trimEnd s.
Proof.
  intros Hr. unfold trimEnd. rewrite reverse_app, trimStart_app_white; [done|].
  unfold allWhiteSpace. by rewrite Forall_reverse.
Qed.

Lemma trim_surrounded (l s r : jsstring) :
  allWhiteSpace l -> allWhiteSpace r -> trim (l ++ s ++ r) = trim s.
Proof.
  intros Hl Hr. unfold trim. rewrite trimStart_app_white by done.
  rewrite trimStart_app. destruct (trimStart s) as [|c t] eqn:Hs.
  - by rewrite trimStart_all_white.
  - by rewrite trimEnd_app_white.
Qed.

Lemma trim_empty_iff (s : jsstring) : trim s = [] <-> allWhiteSpace s.
Proof.
  split.
  - intros H. destruct (trim_spec s) as ((l & r & Hs & Hl & Hr) & _).
    rewrite H in Hs. rewrite Hs. apply Forall_app. split; [done|].
    by apply Forall_app.
  - intros H. unfold trim. by rewrite trimStart_all_white.
Qed.

(** X15: the request leaves the note out exactly when the note text is white
    space from end to end, the empty text included. *)
Theorem note_omitted_iff_all_white_space :
  forall s : FormState,
    Types.note (payload s) = None <-> allWhiteSpace (note s).
Proof.
  intros s. rewrite <- trim_empty_iff. unfold payload. cbn [Types.note].
  destruct (trim (note s)) as [|c t]; cbn [truthy]; split; done.
Qed.

(** X16: white space around the note text makes no difference to the request:
    with or without it the same payload is sent. *)
Theorem note_white_space_around_ignored :
  forall (w : World) (l r : jsstring),
    allWhiteSpace l -> allWhiteSpace r ->
    payload (form (exec (setNote (l ++ note (form w) ++ r)) w))
    = payload (form w).
Proof.
  intros w l r Hl Hr. unfold payload. run_handler.
  by rewrite (trim_surrounded l (note (form w)) r Hl Hr).
Qed.

Lemma note_white_space_around_ignored_witness :
  allWhiteSpace (lit " ") /\ allWhiteSpace [0x000A%N]
  /\ payload (form (exec (setNote (lit " " ++ note (form initialWorld) ++ [0x000A%N]))
                         initialWorld))
     = payload (form initialWorld).
Proof.
  assert (Hl : allWhiteSpace (lit " ")) by (repeat constructor).
  assert (Hr : allWhiteSpace [0x000A%N]) by (repeat constructor).
  split; [exact Hl|]. split; [exact Hr|].
  apply (note_white_space_around_ignored initialWorld _ _ Hl Hr).
Defined.





(** ** Errors that cannot be read *)

Example unreadable_undefined : readable VUndefined = false.
Proof. reflexivity. Qed.

Example unreadable_null : readable VNull = false.
Proof. reflexivity. Qed.

Example unreadable_details_text :
  readable (VObject [(lit "error", VObject [(lit "details", VString (lit "bad"))])])
  = false.
Proof. reflexivity. Qed.

Example unreadable_null_detail :
  readable (VObject [(lit "error", VObject [(lit "details", VArray [VNull])])])
  = false.
Proof. reflexivity. Qed.

Example readable_error_object :
  readable (VObject [(lit "message", VString (lit "Failed to fetch"))]) = true.
Proof. reflexivity. Qed.

Example readable_text : readable (VString (lit "boom")) = true.
Proof. reflexivity. Qed.


